(** * A shallow embedding of the generic CRUD helper and the job-updates router

    Sources embedded here:
    - [src/utils/curdHelper.js]: the object [REST_API] with [getAll],
      [getDataListByField], [update], [delete] and [create];
    - [src/api/jobupdatemanagement/jobupdateRoute.js]: the route table.

    The helper is asynchronous glue around an ORM.  We model it as sequential
    code in a state-and-exception monad over a [world] that holds the
    committed database, the transactions opened so far and the trace of every
    externally visible action (transaction control, store calls, log lines).
    The ORM's row-level behaviour is not part of the repository: it is an
    interface ([Store]) every theorem quantifies over.  Any call on a model
    may reject.  Whether opening, committing or rolling back a transaction
    rejects is a second interface, [Control].  A theorem with a [Control] in
    its context holds for every behaviour of transaction control; a theorem
    without one is about [reliable_control], under which opening always
    succeeds and [commit] and [rollback] fail only on a transaction that is
    already finished.  Requests are served one at a time.

    Numbers are JavaScript numbers with an integral value; the non-finite
    results of a division by zero are kept.  The arithmetic on them is the
    exact one, which is the program's as long as the values involved are
    safe integers ([safe_integer]); what is stated about the value of an
    offset says so.  Text is ASCII text; what is stated about upper-cased
    text says so ([ascii_text]).  The options of a query have the types the
    helper expects: numbers for [page] and [limit], a string for [search]
    and [sort], an object for [filter]. *)

From Stdlib Require Import ZArith Lia Ascii String.
From stdpp Require Import base option list strings gmap fin_maps pretty.

(** ** JavaScript values *)

Inductive jsval :=
  | VUndefined
  | VNull
  | VBool (b : bool)
  | VNum (z : Z)
  | VStr (s : string).

#[global] Instance jsval_eq_dec : EqDecision jsval.
Proof. solve_decision. Defined.

(** What a template literal [`${v}`] prints; a number is printed in full,
    as numbers below [1e21] are. *)
Definition template (v : jsval) : string :=
  match v with
  | VUndefined => "undefined"
  | VNull => "null"
  | VBool true => "true"
  | VBool false => "false"
  | VNum z => pretty z
  | VStr s => s
  end.

(** A plain object with string keys: rows, payloads, the [filter] option. *)
Abbreviation object := (gmap string jsval).

(** [Object.keys(o)]. *)
Definition Object_keys (o : object) : list string := (map_to_list o).*1.

(** Results of number arithmetic that need not be finite. *)
Inductive number :=
  | Fin (z : Z)
  | PosInf
  | NegInf
  | NaN.

#[global] Instance number_eq_dec : EqDecision number.
Proof. solve_decision. Defined.

(** [parseInt] applied to a number: an integral value is printed and read
    back, in full below [1e21]; [Infinity] and [NaN] do not start with a
    digit. *)
Definition parseInt (n : number) : number :=
  match n with
  | Fin z => Fin z
  | _ => NaN
  end.

(** [Math.ceil(count / limit)] for integral [count] and [limit]. *)
Definition Math_ceil_div (count limit : Z) : number :=
  if (limit =? 0)%Z then
    if (count =? 0)%Z then NaN
    else if (0 <? count)%Z then PosInf else NegInf
  else Fin (- ((- count) / limit))%Z.

(** ** Strings: [split] and [toUpperCase] *)

(** [s.split(sep)] for a one-character separator. *)
Fixpoint split (sep : ascii) (s : string) : list string :=
  match s with
  | EmptyString => [EmptyString]
  | String c r =>
      if Ascii.eqb c sep then EmptyString :: split sep r
      else match split sep r with
           | [] => [String c EmptyString]
           | h :: t => String c h :: t
           end
  end.

Definition upper_ascii (c : ascii) : ascii :=
  let n := N_of_ascii c in
  if ((97 <=? n) && (n <=? 122))%N then ascii_of_N (n - 32) else c.

(** [s.toUpperCase()] on ASCII text, where only the letters [a] to [z]
    change. *)
Fixpoint toUpperCase (s : string) : string :=
  match s with
  | EmptyString => EmptyString
  | String c r => String (upper_ascii c) (toUpperCase r)
  end.

(** The last character of a string, used to tell error messages apart. *)
Fixpoint last_char (s : string) : option ascii :=
  match s with
  | EmptyString => None
  | String c EmptyString => Some c
  | String _ r => last_char r
  end.

(** ** Errors and outcomes *)

(** Errors are told apart by where they are raised: [JsError] is a
    [throw new Error(msg)] of the helper itself, [TypeError] is raised by the
    runtime, [StoreError] is a rejection coming out of the ORM. *)
Inductive error :=
  | JsError (msg : string)
  | TypeError (msg : string)
  | StoreError (msg : string).

Definition message (e : error) : string :=
  match e with
  | JsError m | TypeError m | StoreError m => m
  end.

Inductive outcome (A : Type) :=
  | Return (a : A)
  | Throw (e : error).
Arguments Return {A} a.
Arguments Throw {A} e.

(** ** The ORM's vocabulary *)

(** The data types of the ORM that matter to [getAll]; [CHAR] is the only
    subclass of [STRING]. *)
Inductive DataType :=
  | STRING | CHAR | TEXT | CITEXT
  | INTEGER | BIGINT | FLOAT | DOUBLE | DECIMAL
  | BOOLEAN | DATE | DATEONLY | JSON | UUID | ENUM | BLOB.

(** [t instanceof DataTypes.STRING]. *)
Definition instanceof_STRING (t : DataType) : bool :=
  match t with
  | STRING | CHAR => true
  | _ => false
  end.

Record Model := {
  name : string;
  rawAttributes : list (string * DataType)
}.

(** [model.rawAttributes[attr].type]. *)
Fixpoint attribute_type (attrs : list (string * DataType)) (attr : string)
  : option DataType :=
  match attrs with
  | [] => None
  | (a, t) :: rest =>
      if String.eqb a attr then Some t else attribute_type rest attr
  end.

(** Property keys of a WHERE object: the operator symbols and plain strings. *)
Inductive symbol := Op_or | Op_like.

#[global] Instance symbol_eq_dec : EqDecision symbol.
Proof. solve_decision. Defined.

#[global] Instance symbol_countable : Countable symbol.
Proof.
  refine (inj_countable'
            (λ s, match s with Op_or => true | Op_like => false end)
            (λ b : bool, if b then Op_or else Op_like) _).
  by intros [].
Defined.

Abbreviation key := (symbol + string)%type.

(** [{ [attr]: { [Op.like]: pattern } }]. *)
Record condition := Like { cond_attr : string; cond_pattern : string }.

#[global] Instance condition_eq_dec : EqDecision condition.
Proof. solve_decision. Defined.

Inductive wvalue :=
  | WDisj (conds : list condition)
  | WVal (v : jsval).

Record find_options := {
  where_ : gmap key wvalue;
  limit : number;
  offset : number;
  order : list (string * string);
  paranoid : bool
}.

Record query := {
  q_page : option Z;
  q_limit : option Z;
  q_search : option string;
  q_filter : option object;
  q_sort : option string
}.

Record page_result := {
  rows : list object;
  count : N;
  totalPages : number;
  currentPage : number
}.

(** ** The store interface

    What the helper asks of a model.  A call either answers or rejects with a
    message; writes also leave a new database behind.  [JSON_stringify]
    stands for the runtime's [JSON.stringify] on a query object.

    [model.update] answers with a two-element array.  With
    [returning: true] a store that can return rows answers
    [[rows.length, rows]]; the others answer [[undefined, affected]].  The
    interface admits any first element ([None] is [undefined]) and rows or
    a number as the second. *)

Inductive answer (A : Type) :=
  | Answer (a : A)
  | Reject (msg : string).
Arguments Answer {A} a.
Arguments Reject {A} msg.

Class Store (DB : Type) := {
  model_findAndCountAll : Model → find_options → DB → answer (list object * N);
  model_findAll : Model → string → jsval → DB → answer (list object);
  model_update :
    Model → object → jsval → DB → answer (option N * (list object + N)) * DB;
  model_destroy : Model → jsval → DB → answer N * DB;
  model_create : Model → object → DB → answer object * DB;
  JSON_stringify : query → string
}.

(** ** The world: database, transactions, trace *)

Inductive tx_status (DB : Type) :=
  | TxActive (working : DB)
  | TxCommitted
  | TxRolledBack.
Arguments TxActive {DB} working.
Arguments TxCommitted {DB}.
Arguments TxRolledBack {DB}.

(** The calls the helper makes on a model, with the arguments that vary; the
    options it always passes ([paranoid: true], [returning: true]) are left
    out, and the transaction a call carries is recorded with the event. *)
Inductive store_call :=
  | CallFindAndCountAll (m : Model) (o : find_options)
  | CallFindAll (m : Model) (fieldName : string) (fieldValue : jsval)
  | CallUpdate (m : Model) (data : object) (id : jsval)
  | CallDestroy (m : Model) (id : jsval)
  | CallCreate (m : Model) (data : object).

Inductive level := Info | Error.

Inductive event :=
  | EvBegin (t : nat)
  | EvCommit (t : nat)
  | EvRollback (t : nat)
  | EvStore (c : store_call) (tx : option nat)
  | EvLog (l : level) (msg : string).

Record world (DB : Type) := World {
  committed : DB;
  txs : list (tx_status DB);
  trace : list event
}.
Arguments World {DB} committed txs trace.
Arguments committed {DB} w.
Arguments txs {DB} w.
Arguments trace {DB} w.

(** ** The monad of the helper: state passing with exceptions *)

Definition M (DB A : Type) : Type := world DB → outcome A * world DB.

Definition ret {DB A} (a : A) : M DB A := λ w, (Return a, w).

Definition throw {DB A} (e : error) : M DB A := λ w, (Throw e, w).

Definition bind {DB A B} (c : M DB A) (k : A → M DB B) : M DB B :=
  λ w, match c w with
       | (Return a, w') => k a w'
       | (Throw e, w') => (Throw e, w')
       end.

(** [try { body } catch (error) { handler }]. *)
Definition try_catch {DB A} (body : M DB A) (handler : error → M DB A)
  : M DB A :=
  λ w, match body w with
       | (Return a, w') => (Return a, w')
       | (Throw e, w') => handler e w'
       end.

Declare Scope js_scope.
Delimit Scope js_scope with js.
Notation "'let*' x ':=' c 'in' k" := (bind c (λ x, k))
  (at level 10, x name, c at level 100, k at level 200) : js_scope.
Notation "'let*' ' pat ':=' c 'in' k" :=
  (bind c (λ x, match x with pat => k end))
  (at level 10, pat pattern, c at level 100, k at level 200) : js_scope.

Definition emit {DB} (ev : event) : M DB unit :=
  λ w, (Return tt, World (committed w) (txs w) (trace w ++ [ev])).

Definition logger_info {DB} (msg : string) : M DB unit := emit (EvLog Info msg).
Definition logger_error {DB} (msg : string) : M DB unit := emit (EvLog Error msg).

Definition lift_answer {A} (a : answer A) : outcome A :=
  match a with
  | Answer x => Return x
  | Reject msg => Throw (StoreError msg)
  end.

(** What transaction control does on a live transaction, given the committed
    database and, for [commit] and [rollback], the working copy: [None] when
    the call goes through, the message of the rejection otherwise, together
    with the committed database the failed call leaves behind. *)
Class Control (DB : Type) := {
  transaction_rejects : DB → option string;
  commit_rejects : DB → DB → option (string * DB);
  rollback_rejects : DB → DB → option (string * DB)
}.

(** Transaction control that never rejects on a live transaction. *)
#[global] Instance reliable_control {DB : Type} : Control DB := {|
  transaction_rejects := λ _, None;
  commit_rejects := λ _ _, None;
  rollback_rejects := λ _ _, None
|}.

(** [sequelize.transaction()]: a new transaction working on a snapshot of the
    committed database; its handle is its position in [txs].  When the call
    rejects no transaction exists. *)
Definition sequelize_transaction {DB} `{!Control DB} : M DB nat :=
  λ w, match transaction_rejects (committed w) with
       | Some msg => (Throw (StoreError msg), w)
       | None =>
           let t := length (txs w) in
           (Return t,
            World (committed w) (txs w ++ [TxActive (committed w)])
                  (trace w ++ [EvBegin t]))
       end.

Definition finished_msg (verb state : string) : string :=
  "Transaction cannot be " +:+ verb
    +:+ " because it has been finished with state: " +:+ state.

Definition status_name {DB} (s : option (tx_status DB)) : string :=
  match s with
  | Some TxCommitted => "commit"
  | Some TxRolledBack => "rollback"
  | _ => "unknown"
  end.

(** [transaction.commit()]: installs the working copy.  The transaction is
    finished with state [commit] whether or not the call goes through; a
    finished transaction cannot be committed again. *)
Definition transaction_commit {DB} `{!Control DB} (t : nat) : M DB unit :=
  λ w, match txs w !! t with
       | Some (TxActive d) =>
           match commit_rejects (committed w) d with
           | None =>
               (Return tt,
                World d (<[t := TxCommitted]> (txs w))
                      (trace w ++ [EvCommit t]))
           | Some (msg, remains) =>
               (Throw (StoreError msg),
                World remains (<[t := TxCommitted]> (txs w))
                      (trace w ++ [EvCommit t]))
           end
       | s =>
           (Throw (StoreError (finished_msg "committed" (status_name s))),
            World (committed w) (txs w) (trace w ++ [EvCommit t]))
       end.

(** [transaction.rollback()]: drops the working copy.  The transaction is
    finished with state [rollback] whether or not the call goes through; a
    finished transaction cannot be rolled back. *)
Definition transaction_rollback {DB} `{!Control DB} (t : nat) : M DB unit :=
  λ w, match txs w !! t with
       | Some (TxActive d) =>
           match rollback_rejects (committed w) d with
           | None =>
               (Return tt,
                World (committed w) (<[t := TxRolledBack]> (txs w))
                      (trace w ++ [EvRollback t]))
           | Some (msg, remains) =>
               (Throw (StoreError msg),
                World remains (<[t := TxRolledBack]> (txs w))
                      (trace w ++ [EvRollback t]))
           end
       | s =>
           (Throw (StoreError (finished_msg "rolled back" (status_name s))),
            World (committed w) (txs w) (trace w ++ [EvRollback t]))
       end.

(** A read sees the committed database and changes nothing. *)
Definition store_read {DB A} (c : store_call) (f : DB → answer A) : M DB A :=
  λ w, (lift_answer (f (committed w)),
        World (committed w) (txs w) (trace w ++ [EvStore c None])).

(** A write without a [transaction] option hits the committed database at
    once; with the option it works on that transaction's copy. *)
Definition store_write {DB A} (c : store_call) (tx : option nat)
    (f : DB → answer A * DB) : M DB A :=
  λ w, match tx with
       | None =>
           let '(a, d') := f (committed w) in
           (lift_answer a,
            World d' (txs w) (trace w ++ [EvStore c None]))
       | Some t =>
           match txs w !! t with
           | Some (TxActive d) =>
               let '(a, d') := f d in
               (lift_answer a,
                World (committed w) (<[t := TxActive d']> (txs w))
                      (trace w ++ [EvStore c (Some t)]))
           | s =>
               (Throw (StoreError
                         (finished_msg "used" (status_name s))),
                World (committed w) (txs w)
                      (trace w ++ [EvStore c (Some t)]))
           end
       end.

(** ** [REST_API], from [src/utils/curdHelper.js] *)

Module REST_API.
Section helper.
Context {DB : Type} `{!Store DB} `{!Control DB}.
Local Open Scope js_scope.

(** Lines 19-27: the search disjunction, one [LIKE] condition per attribute
    whose type is an instance of [DataTypes.STRING]. *)
Definition search_conditions (model : Model) (search : string)
  : list condition :=
  map (λ attr, Like attr ("%" +:+ search +:+ "%"))
      (List.filter
         (λ attr, match attribute_type (rawAttributes model) attr with
                  | Some t => instanceof_STRING t
                  | None => false
                  end)
         (rawAttributes model).*1).

(** [if (search)]: a string is truthy unless it is empty. *)
Definition truthy_string (s : option string) : bool :=
  match s with
  | Some (String _ _) => true
  | _ => false
  end.

(** Lines 29-33: [where[key] = filter[key]] for every key of [filter]. *)
Definition assign_filter (f : object) (where_obj : gmap key wvalue)
  : gmap key wvalue :=
  foldl (λ w k, <[inr k := WVal (default VUndefined (f !! k))]> w)
        where_obj (Object_keys f).

(** Lines 16-33: the WHERE object. *)
Definition build_where (model : Model) (q : query) : gmap key wvalue :=
  let where_obj : gmap key wvalue := ∅ in
  let where_obj :=
    if truthy_string (q_search q)
    then <[inl Op_or :=
             WDisj (search_conditions model (default "" (q_search q)))]>
           where_obj
    else where_obj in
  match q_filter q with
  | Some f => assign_filter f where_obj
  | None => where_obj
  end.

(** Lines 35-38: [sort.split(":")], then [direction.toUpperCase()], which
    raises a type error on [undefined]. *)
Definition build_order (sort : option string)
  : outcome (list (string * string)) :=
  if truthy_string sort then
    match split ":" (default "" sort) with
    | field :: direction :: _ => Return [(field, toUpperCase direction)]
    | [field] =>
        Throw (TypeError
                 "Cannot read properties of undefined (reading 'toUpperCase')")
    | [] => Throw (TypeError "undefined is not iterable")
    end
  else Return [].

Definition lift_outcome {A} (o : outcome A) : M DB A := λ w, (o, w).

Definition empty_query : query :=
  {| q_page := None; q_limit := None; q_search := None;
     q_filter := None; q_sort := None |}.

(** Lines 14-15 and 40-46: the options handed to [findAndCountAll]. *)
Definition getAll_options (model : Model) (query : query)
    (order : list (string * string)) : find_options :=
  let page := default 1%Z (q_page query) in
  let limit := default 10%Z (q_limit query) in
  let offset := ((page - 1) * limit)%Z in
  {| where_ := build_where model query;
     limit := parseInt (Fin limit);
     offset := parseInt (Fin offset);
     order := order;
     paranoid := true |}.

(** Lines 51-56: the object returned. *)
Definition getAll_result (query : query) (result : list object * N)
  : page_result :=
  let page := default 1%Z (q_page query) in
  let limit := default 10%Z (q_limit query) in
  {| rows := result.1;
     count := result.2;
     totalPages := Math_ceil_div (Z.of_N result.2) limit;
     currentPage := parseInt (Fin page) |}.

(** Lines 12-63. *)
Definition getAll (model : Model) (query : option query)
  : M DB page_result :=
  let query := default empty_query query in
  try_catch
    (let* order := lift_outcome (build_order (q_sort query)) in
     let options := getAll_options model query order in
     let* result :=
       store_read (CallFindAndCountAll model options)
                  (model_findAndCountAll model options) in
     let* _ :=
       logger_info ("Read records from " +:+ name model +:+ " with query "
                      +:+ JSON_stringify query) in
     ret (getAll_result query result))
    (λ error,
       let* _ :=
         logger_error ("Error reading records from " +:+ name model +:+ ": "
                         +:+ message error) in
       throw error).

Definition not_found_by_field (model : Model) (fieldName : string)
    (fieldValue : jsval) : error :=
  JsError (name model +:+ " with " +:+ fieldName +:+ " "
             +:+ template fieldValue +:+ " not found").

(** Lines 72-93. *)
Definition getDataListByField (model : Model) (fieldName : string)
    (fieldValue : jsval) : M DB (list object) :=
  try_catch
    (let* result :=
       store_read (CallFindAll model fieldName fieldValue)
                  (model_findAll model fieldName fieldValue) in
     let* _ :=
       if decide (length result = 0)
       then throw (not_found_by_field model fieldName fieldValue)
       else ret tt in
     let* _ :=
       logger_info ("Read record(s) from " +:+ name model +:+ " with "
                      +:+ fieldName +:+ " " +:+ template fieldValue) in
     ret result)
    (λ error,
       let* _ :=
         logger_error ("Error reading " +:+ name model +:+ ": "
                         +:+ message error) in
       throw error).

(** [!data || Object.keys(data).length === 0]. *)
Definition empty_payload (data : option object) : bool :=
  match data with
  | None => true
  | Some d => bool_decide (length (Object_keys d) = 0)
  end.

Definition not_found_update (model : Model) (id : jsval) : error :=
  JsError (name model +:+ " with id " +:+ template id
             +:+ " not found or no changes applied").

(** [updatedRows[0]]: [undefined] ([None]) on an empty array and on a
    number. *)
Definition first_row (updatedRows : list object + N) : option object :=
  match updatedRows with
  | inl rows => head rows
  | inr _ => None
  end.

(** Lines 102-130.  [updatedRowsCount === 0] holds of the number 0 only, not
    of [undefined]. *)
Definition update (model : Model) (id : jsval) (data : option object)
  : M DB (option object) :=
  let* transaction := sequelize_transaction in
  try_catch
    (let* _ :=
       if empty_payload data
       then throw (JsError "Update data cannot be empty")
       else ret tt in
     let data := default ∅ data in
     let* '(updatedRowsCount, updatedRows) :=
       store_write (CallUpdate model data id) (Some transaction)
                   (model_update model data id) in
     let* _ :=
       if decide (updatedRowsCount = Some 0%N)
       then throw (not_found_update model id)
       else ret tt in
     let* _ := transaction_commit transaction in
     let* _ :=
       logger_info ("Updated record in " +:+ name model +:+ " with id "
                      +:+ template id) in
     ret (first_row updatedRows))
    (λ error,
       let* _ := transaction_rollback transaction in
       let* _ :=
         logger_error ("Error updating record in " +:+ name model +:+ ": "
                         +:+ message error) in
       throw error).

Definition not_found_delete (model : Model) (id : jsval) : error :=
  JsError (name model +:+ " with id " +:+ template id
             +:+ " not found or already deleted").

(** Lines 138-158. *)
Definition delete (model : Model) (id : jsval) : M DB string :=
  try_catch
    (let* result :=
       store_write (CallDestroy model id) None (model_destroy model id) in
     let* _ :=
       if decide (result = 0%N)
       then throw (not_found_delete model id)
       else ret tt in
     let* _ :=
       logger_info ("Soft deleted record from " +:+ name model +:+ " with id "
                      +:+ template id) in
     ret "deleted")
    (λ error,
       let* _ :=
         logger_error ("Error soft deleting record from " +:+ name model
                         +:+ ": " +:+ message error) in
       throw error).

(** Lines 166-183. *)
Definition create (model : Model) (data : option object) : M DB object :=
  let* transaction := sequelize_transaction in
  try_catch
    (let* _ :=
       if empty_payload data
       then throw (JsError "Data cannot be empty")
       else ret tt in
     let data := default ∅ data in
     let* result :=
       store_write (CallCreate model data) (Some transaction)
                   (model_create model data) in
     let* _ := transaction_commit transaction in
     let* _ :=
       logger_info ("Created record in " +:+ name model +:+ " with id "
                      +:+ template (default VUndefined (result !! "id"))) in
     ret result)
    (λ error,
       let* _ := transaction_rollback transaction in
       let* _ :=
         logger_error ("Error creating record in " +:+ name model +:+ ": "
                         +:+ message error) in
       throw error).

End helper.
End REST_API.

(** ** The route table, from [src/api/jobupdatemanagement/jobupdateRoute.js] *)

Module JobUpdateRoute.

Inductive method := GET | POST | PUT | DELETE | HEAD | PATCH | OPTIONS.

#[global] Instance method_eq_dec : EqDecision method.
Proof. solve_decision. Defined.

(** The actions of [JobUpdateController] the router refers to. *)
Inductive action :=
  | getAllJobUpdates
  | getJobUpdateById
  | createJobUpdate
  | updateJobUpdate
  | deleteJobUpdate
  | getLatestJobs
  | getAdmitCards
  | getAnswerKeys
  | getResults.

#[global] Instance action_eq_dec : EqDecision action.
Proof. solve_decision. Defined.

Record route := Route {
  route_method : method;
  route_path : string;
  route_handler : action
}.

(** Lines 6-16, in registration order. *)
Definition router : list route :=
  [ Route GET "/job-updates" getAllJobUpdates;
    Route GET "/job-updates/:id" getJobUpdateById;
    Route POST "/job-updates" createJobUpdate;
    Route PUT "/job-updates/:id" updateJobUpdate;
    Route DELETE "/job-updates/:id" deleteJobUpdate;
    Route GET "/latest-jobs" getLatestJobs;
    Route GET "/admit-cards" getAdmitCards;
    Route GET "/answer-keys" getAnswerKeys;
    Route GET "/results" getResults ].

(** The handlers registered under a method and a path pattern. *)
Definition registered (m : method) (path : string) : list action :=
  route_handler <$>
    List.filter
      (λ r, bool_decide (route_method r = m)
            && String.eqb (route_path r) path)
      router.

(** How the web framework matches a request path against a pattern: the
    path is cut at ["/"], a literal segment is compared without regard to
    case, a [:name] segment takes any non-empty segment, and one trailing
    slash is allowed.  The framework then decodes the percent-escapes of a
    [:name] segment and refuses the request when they are malformed; that
    step is not modelled, and what is stated about the action a request
    runs is stated for paths without ["%"]. *)
Inductive segment :=
  | Lit (s : string)
  | Param (p : string).

Definition parse_segment (s : string) : segment :=
  match s with
  | String ":" p => Param p
  | _ => Lit s
  end.

Definition parse_pattern (pattern : string) : list segment :=
  match split "/" pattern with
  | "" :: segs => parse_segment <$> segs
  | segs => parse_segment <$> segs
  end.

Fixpoint match_segments (pat : list segment) (segs : list string) : bool :=
  match pat, segs with
  | [], [] => true
  | [], [""] => true
  | Lit l :: pat', s :: segs' =>
      String.eqb (toUpperCase l) (toUpperCase s) && match_segments pat' segs'
  | Param _ :: pat', s :: segs' =>
      negb (String.eqb s "") && match_segments pat' segs'
  | _, _ => false
  end.

Definition path_matches (pattern path : string) : bool :=
  match split "/" path with
  | "" :: segs => match_segments (parse_pattern pattern) segs
  | _ => false
  end.

(** A route handles the method it is registered with; one registered with
    [router.get] also handles [HEAD], none of the routes here having a
    handler of its own for it. *)
Definition handles (registered requested : method) : bool :=
  bool_decide (registered = requested)
  || (bool_decide (requested = HEAD) && bool_decide (registered = GET)).

Definition route_matches (m : method) (path : string) (r : route) : bool :=
  handles (route_method r) m && path_matches (route_path r) path.

(** Every route a request matches, in registration order; the framework runs
    the first. *)
Definition matching (m : method) (path : string) : list action :=
  route_handler <$> List.filter (route_matches m path) router.

Definition dispatch (m : method) (path : string) : option action :=
  head (matching m path).

End JobUpdateRoute.

(** ** Vocabulary of the statements *)

(** The events a computation adds to the trace when run from [w]. *)
Definition events_of {DB A} (c : M DB A) (w : world DB) : list event :=
  drop (length (trace w)) (trace (c w).2).


Definition no_store_call (evs : list event) : Prop :=
  ∀ c tx, EvStore c tx ∉ evs.



(** The log lines among some events, in order. *)
Definition log_lines (evs : list event) : list (level * string) :=
  omap (λ ev, match ev with
              | EvLog l msg => Some (l, msg)
              | _ => None
              end) evs.


(** [Number.isSafeInteger]: the integers on which the arithmetic of
    numbers is exact. *)
Definition safe_integer (z : Z) : Prop :=
  (- (2 ^ 53 - 1) ≤ z)%Z ∧ (z ≤ 2 ^ 53 - 1)%Z.

(** Text in which upper-casing touches the letters [a] to [z] only. *)
Definition ascii_text (s : string) : Prop :=
  Forall (λ c, (N_of_ascii c < 128)%N) (list_ascii_of_string s).



(** How the store reads a WHERE object: the conditions under all its keys
    must hold together; the disjunction under [Op.or] holds when one of its
    conditions does.  The atomic tests are the store's own. *)
Definition where_holds (like_holds : condition → object → bool)
    (field_holds : string → jsval → object → bool)
    (w : gmap key wvalue) (row : object) : Prop :=
  ∀ k v, w !! k = Some v →
    match k, v with
    | inl Op_or, WDisj conds => ∃ c, c ∈ conds ∧ like_holds c row = true
    | inr field, WVal x => field_holds field x row = true
    | _, _ => False
    end.

(** ** An in-memory store, to run the helper on *)

Module Memory.

Definition has_id (id : jsval) (row : object) : bool :=
  bool_decide (row !! "id" = Some id).

Definition findAll (m : Model) (fieldName : string) (fieldValue : jsval)
    (db : list object) : answer (list object) :=
  Answer (List.filter (λ r, bool_decide (r !! fieldName = Some fieldValue)) db).

(** The page cut out by [offset] and [limit], and the number of all rows. *)
Definition findAndCountAll (m : Model) (o : find_options) (db : list object)
  : answer (list object * N) :=
  let page_rows :=
    match offset o, limit o with
    | Fin off, Fin lim => take (Z.to_nat lim) (drop (Z.to_nat off) db)
    | _, _ => db
    end in
  Answer (page_rows, N.of_nat (length db)).

(** A store that returns the rows it updated. *)
Definition update (m : Model) (data : object) (id : jsval) (db : list object)
  : answer (option N * (list object + N)) * list object :=
  let updated := (λ r, data ∪ r) <$> List.filter (has_id id) db in
  (Answer (Some (N.of_nat (length updated)), inl updated),
   (λ r, if has_id id r then data ∪ r else r) <$> db).

(** A store that cannot return rows and answers [[undefined, affected]]. *)
Definition update_counting (m : Model) (data : object) (id : jsval)
    (db : list object)
  : answer (option N * (list object + N)) * list object :=
  (Answer (None, inr (N.of_nat (length (List.filter (has_id id) db)))),
   (λ r, if has_id id r then data ∪ r else r) <$> db).

Definition destroy (m : Model) (id : jsval) (db : list object)
  : answer N * list object :=
  (Answer (N.of_nat (length (List.filter (has_id id) db))),
   List.filter (λ r, negb (has_id id r)) db).

(** Creating a row whose [id] is taken is rejected. *)
Definition create (m : Model) (data : object) (db : list object)
  : answer object * list object :=
  if existsb (λ r, bool_decide (r !! "id" = data !! "id")) db
  then (Reject "Validation error", db)
  else (Answer data, db ++ [data]).

#[global] Instance store : Store (list object) := {|
  model_findAndCountAll := findAndCountAll;
  model_findAll := findAll;
  model_update := update;
  model_destroy := destroy;
  model_create := create;
  JSON_stringify := λ _, "{}"
|}.

Definition counting_store : Store (list object) := {|
  model_findAndCountAll := findAndCountAll;
  model_findAll := findAll;
  model_update := update_counting;
  model_destroy := destroy;
  model_create := create;
  JSON_stringify := λ _, "{}"
|}.

(** Transaction control whose [commit] is rejected, nothing being
    committed. *)
Definition commit_fails : Control (list object) := {|
  transaction_rejects := λ _, None;
  commit_rejects := λ db _, Some ("Connection lost", db);
  rollback_rejects := λ _ _, None
|}.

Definition JobUpdate : Model :=
  {| name := "JobUpdate";
     rawAttributes :=
       [("id", INTEGER); ("title", STRING); ("description", TEXT);
        ("category", STRING); ("deletedAt", DATE)] |}.

Definition job (id : Z) (title : string) : object :=
  <["id" := VNum id]> (<["title" := VStr title]> ∅).

Definition start : world (list object) :=
  World [job 1 "Clerk"; job 2 "Constable"] [] [].

(** [{ page: 2, limit: 1, search: "cl", sort: "title:desc" }] *)
Definition page_two : query :=
  {| q_page := Some 2%Z; q_limit := Some 1%Z; q_search := Some "cl";
     q_filter := None; q_sort := Some "title:desc" |}.

(** [{ title: "Head Clerk" }] *)
Definition new_title : object := <["title" := VStr "Head Clerk"]> ∅.


(** [{ sort: "title" }] *)
Definition sort_by_title : query :=
  {| q_page := None; q_limit := None; q_search := None;
     q_filter := None; q_sort := Some "title" |}.

(** [{ page: 3, limit: 1 }] *)
Definition page_three : query :=
  {| q_page := Some 3%Z; q_limit := Some 1%Z; q_search := None;
     q_filter := None; q_sort := None |}.


(** [{ search: "cl", filter: { category: "Police" } }] *)
Definition police_clerks : query :=
  {| q_page := None; q_limit := None; q_search := Some "cl";
     q_filter := Some (<["category" := VStr "Police"]> ∅);
     q_sort := None |}.

End Memory.

(** * Properties *)

#[local] Arguments String.append : simpl never.

(** ** The trace and the transaction table *)

Lemma events_of_app {DB A} (c : M DB A) (w : world DB) (evs : list event) :
  trace (c w).2 = trace w ++ evs → events_of c w = evs.
Proof.
  intros Heq. unfold events_of. rewrite Heq. apply drop_app_length.
Qed.

Lemma lookup_fresh {X} (l : list X) (x : X) : (l ++ [x]) !! length l = Some x.
Proof. by apply list_lookup_middle. Qed.

Lemma insert_fresh {X} (l : list X) (x y : X) :
  <[length l := y]> (l ++ [x]) = l ++ [y].
Proof.
  rewrite insert_app_r_alt by lia. by rewrite Nat.sub_diag.
Qed.

(** ** Closed forms of the five operations *)

Section runs.
Context {DB : Type} `{!Store DB}.



Lemma delete_run (m : Model) (id : jsval) (w : world DB) :
  REST_API.delete m id w =
    let call := EvStore (CallDestroy m id) None in
    let failed e db' :=
      (Throw e,
       World db' (txs w)
         (trace w ++
            [call;
             EvLog Error ("Error soft deleting record from " +:+ name m
                            +:+ ": " +:+ message e)])) in
    match model_destroy m id (committed w) with
    | (Reject msg, db') => failed (StoreError msg) db'
    | (Answer n, db') =>
        if decide (n = 0%N)
        then failed (REST_API.not_found_delete m id) db'
        else
          (Return "deleted",
           World db' (txs w)
             (trace w ++
                [call;
                 EvLog Info ("Soft deleted record from " +:+ name m
                               +:+ " with id " +:+ template id)]))
    end.
Proof.
  unfold REST_API.delete, bind, try_catch, store_write, throw, ret.
  destruct (model_destroy m id (committed w)) as [[n|msg] db']; simpl.
  - destruct (decide (n = 0%N)); simpl;
      unfold logger_error, logger_info, emit; simpl;
      by rewrite <- !app_assoc.
  - unfold logger_error, emit; simpl. by rewrite <- !app_assoc.
Qed.

Lemma getDataListByField_run (m : Model) (fieldName : string)
    (fieldValue : jsval) (w : world DB) :
  REST_API.getDataListByField m fieldName fieldValue w =
    let call := EvStore (CallFindAll m fieldName fieldValue) None in
    let failed e :=
      (Throw e,
       World (committed w) (txs w)
         (trace w ++
            [call;
             EvLog Error ("Error reading " +:+ name m +:+ ": "
                            +:+ message e)])) in
    match model_findAll m fieldName fieldValue (committed w) with
    | Reject msg => failed (StoreError msg)
    | Answer result =>
        if decide (length result = 0)
        then failed (REST_API.not_found_by_field m fieldName fieldValue)
        else
          (Return result,
           World (committed w) (txs w)
             (trace w ++
                [call;
                 EvLog Info ("Read record(s) from " +:+ name m +:+ " with "
                               +:+ fieldName +:+ " "
                               +:+ template fieldValue)]))
    end.
Proof.
  unfold REST_API.getDataListByField, bind, try_catch, store_read, throw, ret.
  destruct (model_findAll m fieldName fieldValue (committed w))
    as [result|msg]; simpl.
  - destruct (decide (length result = 0)); simpl;
      unfold logger_error, logger_info, emit; simpl;
      by rewrite <- !app_assoc.
  - unfold logger_error, emit; simpl. by rewrite <- !app_assoc.
Qed.

Lemma getAll_run (m : Model) (query : option query) (w : world DB) :
  REST_API.getAll m query w =
    let q := default REST_API.empty_query query in
    let failed e calls :=
      (Throw e,
       World (committed w) (txs w)
         (trace w ++ calls ++
            [EvLog Error ("Error reading records from " +:+ name m +:+ ": "
                            +:+ message e)])) in
    match REST_API.build_order (q_sort q) with
    | Throw e => failed e []
    | Return order =>
        let options := REST_API.getAll_options m q order in
        let call := EvStore (CallFindAndCountAll m options) None in
        match model_findAndCountAll m options (committed w) with
        | Reject msg => failed (StoreError msg) [call]
        | Answer result =>
            (Return (REST_API.getAll_result q result),
             World (committed w) (txs w)
               (trace w ++
                  [call;
                   EvLog Info ("Read records from " +:+ name m
                                 +:+ " with query " +:+ JSON_stringify q)]))
        end
    end.
Proof.
  unfold REST_API.getAll, bind, try_catch, REST_API.lift_outcome, store_read,
    throw, ret.
  destruct (REST_API.build_order _) as [order|e]; simpl.
  - destruct (model_findAndCountAll _ _ _) as [result|msg]; simpl;
      unfold logger_error, logger_info, emit; simpl;
      by rewrite <- !app_assoc.
  - reflexivity.
Qed.

End runs.

(** ** Strings *)

Lemma split_no_separator (sep : ascii) (s : string) :
  ¬ In sep (list_ascii_of_string s) → split sep s = [s].
Proof.
  induction s as [|c r IH]; simpl; intros Hno; [done|].
  destruct (Ascii.eqb_spec c sep) as [->|_]; [tauto|].
  rewrite IH by tauto. done.
Qed.

Lemma last_char_app (a b : string) :
  b ≠ "" → last_char (a +:+ b) = last_char b.
Proof.
  intros Hb. induction a as [|c a IH]; [done|].
  change (String c a +:+ b) with (String c (a +:+ b)). simpl.
  destruct (a +:+ b) eqn:E; [|done].
  destruct a; [|done]. unfold String.append in E. congruence.
Qed.

(** ** The WHERE object *)

Lemma Object_keys_elem (o : object) (k : string) :
  k ∈ Object_keys o ↔ is_Some (o !! k).
Proof.
  unfold Object_keys. rewrite list_elem_of_fmap. split.
  - intros ([k' v] & -> & Hin). apply elem_of_map_to_list in Hin. by eexists.
  - intros [v Hv]. exists (k, v). split; [done|].
    by apply elem_of_map_to_list.
Qed.

Lemma Object_keys_nil (o : object) : length (Object_keys o) = 0 ↔ o = ∅.
Proof.
  unfold Object_keys. rewrite length_fmap. split.
  - intros Hlen. apply map_to_list_empty_iff. by apply nil_length_inv.
  - intros ->. by rewrite map_to_list_empty.
Qed.

Lemma assign_loop_symbol (f : object) (ks : list string)
    (w : gmap key wvalue) (s : symbol) :
  foldl (λ w k, <[inr k := WVal (default VUndefined (f !! k))]> w) w ks
    !! inl s = w !! inl s.
Proof.
  revert w. induction ks as [|k ks IH]; intros w; simpl; [done|].
  rewrite IH. by rewrite lookup_insert_ne.
Qed.

Lemma assign_loop_string (f : object) (ks : list string)
    (w : gmap key wvalue) (k : string) :
  foldl (λ w k, <[inr k := WVal (default VUndefined (f !! k))]> w) w ks
    !! inr k =
  if decide (k ∈ ks) then Some (WVal (default VUndefined (f !! k)))
  else w !! inr k.
Proof.
  revert w. induction ks as [|k' ks IH]; intros w.
  - destruct (decide (k ∈ [])) as [Hin|_]; [|done].
    by apply elem_of_nil in Hin.
  - change (foldl ?g w (k' :: ks)) with (foldl g (g w k') ks).
    rewrite IH. destruct (decide (k ∈ ks)) as [Hin|Hnin].
    + destruct (decide (k ∈ k' :: ks)) as [_|Hn]; [done|].
      destruct Hn. by right.
    + destruct (decide (k' = k)) as [->|Hne].
      * rewrite lookup_insert_eq.
        destruct (decide (k ∈ k :: ks)) as [_|Hn]; [done|].
        destruct Hn. by left.
      * rewrite lookup_insert_ne by congruence.
        destruct (decide (k ∈ k' :: ks)) as [Hin|_]; [|done].
        apply elem_of_cons in Hin as [?|?]; congruence.
Qed.

Lemma assign_filter_symbol (f : object) (w : gmap key wvalue) (s : symbol) :
  REST_API.assign_filter f w !! inl s = w !! inl s.
Proof. apply assign_loop_symbol. Qed.

Lemma assign_filter_string (f : object) (w : gmap key wvalue) (k : string) :
  REST_API.assign_filter f w !! inr k =
  match f !! k with
  | Some v => Some (WVal v)
  | None => w !! inr k
  end.
Proof.
  unfold REST_API.assign_filter. rewrite assign_loop_string.
  destruct (decide (k ∈ Object_keys f)) as [Hin|Hnin].
  - apply Object_keys_elem in Hin as [v Hv]. by rewrite Hv.
  - destruct (f !! k) as [v|] eqn:Hk; [|done].
    destruct Hnin. apply Object_keys_elem. by eexists.
Qed.

Lemma truthy_string_spec (o : option string) :
  REST_API.truthy_string o = true ↔ ∃ s, o = Some s ∧ s ≠ "".
Proof.
  destruct o as [[|c r]|]; simpl; split; try done.
  - intros (s & [= <-] & Hs). done.
  - intros _. by eexists.
  - intros (s & [=] & _).
Qed.


Lemma attribute_type_elem (attrs : list (string * DataType)) (a : string) :
  is_Some (attribute_type attrs a) ↔ a ∈ attrs.*1.
Proof.
  induction attrs as [|[a' t] attrs IH]; simpl.
  - split; [by intros [? ?]|by intros ?%elem_of_nil].
  - destruct (String.eqb_spec a' a) as [->|Hne].
    + split; [intros _; by left|by eexists].
    + rewrite IH. change (((a', t) :: attrs).*1) with (a' :: attrs.*1).
      rewrite elem_of_cons. split; [by right|].
      intros [?|?]; [congruence|done].
Qed.

Lemma search_conditions_elem (m : Model) (s : string) (c : condition) :
  c ∈ REST_API.search_conditions m s ↔
  cond_pattern c = "%" +:+ s +:+ "%" ∧
  ∃ t, attribute_type (rawAttributes m) (cond_attr c) = Some t ∧
       instanceof_STRING t = true.
Proof.
  unfold REST_API.search_conditions.
  rewrite list_elem_of_In, in_map_iff. split.
  - intros (a & <- & Hin). apply filter_In in Hin as [_ Ht]. simpl.
    split; [done|].
    destruct (attribute_type (rawAttributes m) a) as [t|]; [|done].
    by exists t.
  - intros (Hp & t & Ht & Hs). destruct c as [a p]; simpl in *. subst p.
    exists a. split; [done|]. apply filter_In. split.
    + apply list_elem_of_In, attribute_type_elem. by eexists.
    + by rewrite Ht.
Qed.

Lemma search_conditions_NoDup (m : Model) (s : string) :
  NoDup (rawAttributes m).*1 → NoDup (REST_API.search_conditions m s).
Proof.
  intros Hnd%NoDup_ListNoDup. apply NoDup_ListNoDup.
  unfold REST_API.search_conditions.
  apply Finite.Injective_map_NoDup.
  - intros a b [= ->]. done.
  - by apply List.NoDup_filter.
Qed.

Lemma build_where_or (m : Model) (q : query) (s : string) :
  q_search q = Some s → s ≠ "" →
  REST_API.build_where m q !! inl Op_or
    = Some (WDisj (REST_API.search_conditions m s)).
Proof.
  intros Hq Hs. unfold REST_API.build_where.
  assert (REST_API.truthy_string (q_search q) = true) as ->.
  { apply truthy_string_spec. by exists s. }
  rewrite Hq. simpl.
  destruct (q_filter q) as [f|].
  - rewrite assign_filter_symbol. apply lookup_insert_eq.
  - apply lookup_insert_eq.
Qed.

Lemma build_where_like (m : Model) (q : query) :
  REST_API.build_where m q !! inl Op_like = None.
Proof.
  unfold REST_API.build_where.
  destruct (q_filter q) as [f|]; [rewrite assign_filter_symbol|];
    destruct (REST_API.truthy_string (q_search q));
    by rewrite ?lookup_insert_ne, ?lookup_empty.
Qed.

Lemma build_where_string (m : Model) (q : query) (k : string) :
  REST_API.build_where m q !! inr k =
  match q_filter q with
  | Some f => WVal <$> f !! k
  | None => None
  end.
Proof.
  unfold REST_API.build_where.
  destruct (q_filter q) as [f|].
  - rewrite assign_filter_string.
    destruct (f !! k) as [v|]; [done|].
    destruct (REST_API.truthy_string (q_search q));
      by rewrite ?lookup_insert_ne, ?lookup_empty.
  - destruct (REST_API.truthy_string (q_search q));
      by rewrite ?lookup_insert_ne, ?lookup_empty.
Qed.

(** ** getAll *)

Section getAll.
Context {DB : Type} `{!Store DB}.


(** C3: for a non-empty search term the WHERE object handed to the store
    holds, under [Op.or], one [LIKE %search%] condition per attribute whose
    declared type is an instance of [DataTypes.STRING], and no condition on
    any other attribute. *)
Theorem C3_search_disjunction (m : Model) (q : query) (s : string)
    (order : list (string * string)) :
  q_search q = Some s → s ≠ "" →
  let disj := REST_API.search_conditions m s in
  where_ (REST_API.getAll_options m q order) !! inl Op_or
    = Some (WDisj disj) ∧
  (∀ c, c ∈ disj ↔
        cond_pattern c = "%" +:+ s +:+ "%" ∧
        ∃ t, attribute_type (rawAttributes m) (cond_attr c) = Some t ∧
             instanceof_STRING t = true) ∧
  (∀ a t p, attribute_type (rawAttributes m) a = Some t →
            instanceof_STRING t = false → Like a p ∉ disj) ∧
  (NoDup (rawAttributes m).*1 → NoDup disj) ∧
  (∀ w : world DB,
     REST_API.build_order (q_sort q) = Return order →
     EvStore (CallFindAndCountAll m (REST_API.getAll_options m q order)) None
       ∈ events_of (REST_API.getAll m (Some q)) w).
Proof.
  intros Hq Hs disj. split_and!.
  - by apply build_where_or.
  - intros c. apply search_conditions_elem.
  - intros a t p Ht Hno Hin%search_conditions_elem. simpl in Hin.
    destruct Hin as (_ & t' & Ht' & Hs'). congruence.
  - apply search_conditions_NoDup.
  - intros w Hord. unfold events_of. rewrite getAll_run. cbv zeta.
    simpl default. rewrite Hord.
    destruct (model_findAndCountAll _ _ _); simpl;
      rewrite drop_app_length; by left.
Qed.

(** C10: with a search term and a filter, the WHERE object holds the search
    disjunction under [Op.or] and every filter entry under its own key; a row
    satisfies it exactly when it satisfies the disjunction and every filter
    entry; an assignment of the filter loop overwrites whatever was stored
    under the same string key and leaves the symbol keys alone. *)
Theorem C10_filter_alongside_search (m : Model) (q : query) (s : string)
    (f : object) :
  q_search q = Some s → s ≠ "" → q_filter q = Some f →
  let w := REST_API.build_where m q in
  w !! inl Op_or = Some (WDisj (REST_API.search_conditions m s)) ∧
  (∀ k, w !! inr k = WVal <$> f !! k) ∧
  (∀ like_holds field_holds row,
     where_holds like_holds field_holds w row ↔
     (∃ c, c ∈ REST_API.search_conditions m s ∧ like_holds c row = true) ∧
     (∀ k v, f !! k = Some v → field_holds k v row = true)) ∧
  (∀ (w0 : gmap key wvalue) k v sym,
     f !! k = Some v →
     REST_API.assign_filter f w0 !! inr k = Some (WVal v) ∧
     REST_API.assign_filter f w0 !! inl sym = w0 !! inl sym).
Proof.
  intros Hq Hs Hf w.
  assert (w !! inl Op_or = Some (WDisj (REST_API.search_conditions m s)))
    as Hor by by apply build_where_or.
  assert (∀ k, w !! inr k = WVal <$> f !! k) as Hstr.
  { intros k. unfold w. by rewrite build_where_string, Hf. }
  split; [done|]. split; [done|]. split.
  - intros like_holds field_holds row. split.
    + intros Hall. split.
      * apply (Hall (inl Op_or) _ Hor).
      * intros k v Hk. apply (Hall (inr k) (WVal v)).
        by rewrite Hstr, Hk.
    + intros [Hdisj Hfields] [[]|k] v Hk.
      * rewrite Hor in Hk. by injection Hk as <-.
      * unfold w in Hk. by rewrite build_where_like in Hk.
      * rewrite Hstr in Hk. destruct (f !! k) as [x|] eqn:Hx; [|done].
        injection Hk as <-. by apply Hfields.
  - intros w0 k v sym Hk. split.
    + by rewrite assign_filter_string, Hk.
    + apply assign_filter_symbol.
Qed.

End getAll.


Lemma build_order_undefined_direction (s : string) :
  s ≠ "" → ¬ In ":"%char (list_ascii_of_string s) →
  REST_API.build_order (Some s)
    = Throw (TypeError
               "Cannot read properties of undefined (reading 'toUpperCase')").
Proof.
  intros Hs Hno. unfold REST_API.build_order.
  assert (REST_API.truthy_string (Some s) = true) as ->.
  { apply truthy_string_spec. by exists s. }
  simpl default. by rewrite split_no_separator.
Qed.

Lemma split_nonempty (sep : ascii) (s : string) : split sep s ≠ [].
Proof.
  destruct s as [|c r]; simpl; [done|].
  destruct (Ascii.eqb c sep); [done|]. by destruct (split sep r).
Qed.

Lemma split_with_separator (sep : ascii) (s : string) :
  In sep (list_ascii_of_string s) →
  ∃ a b rest, split sep s = a :: b :: rest.
Proof.
  induction s as [|c r IH]; simpl; [done|]. intros Hin.
  destruct (Ascii.eqb_spec c sep) as [->|Hne].
  - pose proof (split_nonempty sep r) as Hr.
    destruct (split sep r) as [|b rest]; [done|]. by eexists _, _, _.
  - destruct Hin as [->|Hin]; [done|].
    destruct (IH Hin) as (a & b & rest & ->). by eexists _, _, _.
Qed.

(** The sort option parses unless it is a non-empty string without [":"]. *)
Lemma build_order_returns (sort : option string) :
  (∃ order, REST_API.build_order sort = Return order) ↔
  ¬ ∃ s, sort = Some s ∧ s ≠ "" ∧ ¬ In ":"%char (list_ascii_of_string s).
Proof.
  split.
  - intros [order Hord] (s & -> & Hs & Hno).
    by rewrite build_order_undefined_direction in Hord.
  - intros Hok. unfold REST_API.build_order.
    destruct (REST_API.truthy_string sort) eqn:Ht; [|by eexists].
    apply truthy_string_spec in Ht as (s & -> & Hs). simpl default.
    destruct (in_dec ascii_dec ":"%char (list_ascii_of_string s))
      as [Hin|Hno].
    + destruct (split_with_separator _ _ Hin) as (a & b & rest & ->).
      by eexists.
    + destruct Hok. by exists s.
Qed.

Section paging.
Context {DB : Type} `{!Store DB}.


(** C9: a non-empty sort option without a [":"] makes [getAll] throw before
    it reaches the store: the split leaves the direction undefined, and
    [toUpperCase] on it raises a type error, which is none of the helper's
    own "not found" or "empty payload" errors. *)
Theorem C9_sort_without_direction (m : Model) (q : query) (s : string)
    (w : world DB) :
  q_sort q = Some s → s ≠ "" → ¬ In ":"%char (list_ascii_of_string s) →
  let e := TypeError
             "Cannot read properties of undefined (reading 'toUpperCase')" in
  split ":" s = [s] ∧
  (REST_API.getAll m (Some q) w).1 = Throw e ∧
  no_store_call (events_of (REST_API.getAll m (Some q)) w) ∧
  events_of (REST_API.getAll m (Some q)) w
    = [EvLog Error ("Error reading records from " +:+ name m +:+ ": "
                      +:+ message e)] ∧
  committed (REST_API.getAll m (Some q) w).2 = committed w ∧
  (∀ msg, e ≠ JsError msg).
Proof.
  intros Hq Hs Hno e.
  assert (REST_API.getAll m (Some q) w =
            (Throw e,
             World (committed w) (txs w)
               (trace w ++
                  [EvLog Error ("Error reading records from " +:+ name m
                                  +:+ ": " +:+ message e)]))) as Hrun.
  { rewrite getAll_run. cbv zeta. simpl default. rewrite Hq.
    by rewrite build_order_undefined_direction. }
  assert (events_of (REST_API.getAll m (Some q)) w
          = [EvLog Error ("Error reading records from " +:+ name m +:+ ": "
                            +:+ message e)]) as Hev.
  { apply events_of_app. by rewrite Hrun. }
  split_and!.
  - by apply split_no_separator.
  - by rewrite Hrun.
  - intros c tx. rewrite Hev. by intros [?|[]%elem_of_nil]%elem_of_cons.
  - done.
  - by rewrite Hrun.
  - done.
Qed.

End paging.

(** ** Payloads and error messages *)


Lemma empty_payload_false (data : option object) :
  REST_API.empty_payload data = false ↔ ∃ d, data = Some d ∧ d ≠ ∅.
Proof.
  destruct data as [d|]; simpl.
  - rewrite bool_decide_eq_false, Object_keys_nil. split.
    + intros Hne. by exists d.
    + by intros (d' & [= <-] & Hne).
  - split; [done|by intros (d & [=] & _)].
Qed.

(** The two errors [update] can raise itself never coincide. *)
Lemma not_found_update_not_empty (m : Model) (id : jsval) :
  JsError "Update data cannot be empty" ≠ REST_API.not_found_update m id.
Proof.
  unfold REST_API.not_found_update. intros [= Heq].
  apply (f_equal last_char) in Heq.
  rewrite !last_char_app in Heq; [done|done| |].
  - destruct (template id); done.
  - done.
Qed.

(** ** Membership in short traces *)


(** ** The four other operations *)

Section crud.
Context {DB : Type} `{!Store DB}.


(** C7: [delete] throws its "not found or already deleted" error exactly when
    the store destroys zero rows, returns ["deleted"] when it destroys at
    least one, and logs every error it throws as its last action. *)
Theorem C7_delete (m : Model) (id : jsval) (w : world DB) :
  ((REST_API.delete m id w).1
     = Throw (JsError (name m +:+ " with id " +:+ template id
                         +:+ " not found or already deleted"))
   ↔ ∃ db', model_destroy m id (committed w) = (Answer 0%N, db')) ∧
  (∀ n db',
     model_destroy m id (committed w) = (Answer n, db') → (0 < n)%N →
     (REST_API.delete m id w).1 = Return "deleted") ∧
  (∀ e,
     (REST_API.delete m id w).1 = Throw e →
     last (events_of (REST_API.delete m id) w)
       = Some (EvLog Error ("Error soft deleting record from " +:+ name m
                              +:+ ": " +:+ message e))).
Proof.
  unfold events_of. rewrite delete_run. cbv zeta.
  destruct (model_destroy m id (committed w)) as [[n|msg] db'];
    [destruct (decide (n = 0%N)) as [->|Hnz]|];
    simpl; rewrite drop_app_length; split_and!.
  - split; [by eexists|done].
  - intros n db'' [= <- _] Hpos. lia.
  - by intros e [= <-].
  - split; [done|]. intros (db'' & [= -> _]). done.
  - done.
  - done.
  - split; [done|]. by intros (db'' & [=]).
  - done.
  - by intros e [= <-].
Qed.

End crud.

Section transactions.
Context {DB : Type} `{!Store DB}.


End transactions.

(** ** The router *)

Section routes.
Import JobUpdateRoute.

Lemma split_job_update_path (id : string) :
  ¬ In "/"%char (list_ascii_of_string id) →
  split "/" ("/job-updates/" +:+ id) = [""; "job-updates"; id].
Proof.
  intros Hno. cbv [String.append]. simpl.
  by rewrite (split_no_separator "/" id Hno).
Qed.

#[local] Arguments String.eqb : simpl never.
#[local] Arguments toUpperCase : simpl never.

Ltac literal_cases a :=
  repeat match goal with
         | |- context [String.eqb ?x (toUpperCase a)] =>
             let E := fresh "E" in
             destruct (String.eqb x (toUpperCase a)) eqn:E;
             [apply String.eqb_eq in E; try rewrite <- E; clear E|clear E]
         end;
  repeat match goal with
         | |- context [String.eqb ?x ?y] =>
             let v := eval vm_compute in (String.eqb x y) in
             match v with
             | true => idtac
             | false => idtac
             end;
             change (String.eqb x y) with v
         end.

Lemma matching_unique (m : method) (path : string) :
  length (matching m path) ≤ 1.
Proof.
  unfold matching. rewrite length_fmap. unfold router, route_matches.
  unfold path_matches.
  destruct (split "/" path) as [|[|c h] segs];
    [destruct m; simpl; lia| |destruct m; simpl; lia].
  destruct segs as [|a [|b segs]].
  - destruct m; simpl; lia.
  - destruct m; simpl; literal_cases a; simpl; lia.
  - destruct m; simpl; literal_cases a; simpl;
      repeat match goal with
             | |- context [String.eqb ?s ""] =>
                 destruct (String.eqb_spec s "") as [->|?]; simpl
             | |- context [match ?s with "" => _ | String _ _ => _ end] =>
                 destruct s; simpl
             | |- context [match ?l with [] => _ | _ :: _ => _ end] =>
                 destruct l; simpl
             end; try congruence; lia.
Qed.

(** C8: each of the five method and path pairs of the job-updates resource
    is registered once, with the action named; a request on one of these
    paths (for the paths with an id: a non-empty id without ["/"] and
    without percent-escapes) is dispatched to that action, a [HEAD] request
    going where the [GET] goes, and no request matches two routes. *)
Theorem C8_job_update_routes :
  registered GET "/job-updates" = [getAllJobUpdates] ∧
  registered GET "/job-updates/:id" = [getJobUpdateById] ∧
  registered POST "/job-updates" = [createJobUpdate] ∧
  registered PUT "/job-updates/:id" = [updateJobUpdate] ∧
  registered DELETE "/job-updates/:id" = [deleteJobUpdate] ∧
  dispatch GET "/job-updates" = Some getAllJobUpdates ∧
  dispatch POST "/job-updates" = Some createJobUpdate ∧
  dispatch HEAD "/job-updates" = Some getAllJobUpdates ∧
  (∀ id, id ≠ "" → ¬ In "/"%char (list_ascii_of_string id) →
     ¬ In "%"%char (list_ascii_of_string id) →
     dispatch GET ("/job-updates/" +:+ id) = Some getJobUpdateById ∧
     dispatch HEAD ("/job-updates/" +:+ id) = Some getJobUpdateById ∧
     dispatch PUT ("/job-updates/" +:+ id) = Some updateJobUpdate ∧
     dispatch DELETE ("/job-updates/" +:+ id) = Some deleteJobUpdate) ∧
  (∀ m path, length (matching m path) ≤ 1).
Proof.
  split_and!; try reflexivity.
  - intros id Hid Hno _.
    unfold dispatch, matching, router, route_matches, path_matches.
    rewrite (split_job_update_path id Hno). simpl.
    destruct (String.eqb_spec id "") as [->|_]; [done|]. simpl.
    destruct id; [done|]. done.
  - apply matching_unique.
Qed.

End routes.

(** ** Which operations are transactional *)

Section scoping.
Context {DB : Type} `{!Store DB}.



End scoping.

(** ** Create and update under any transaction control *)

Section control.
Context {DB : Type} `{!Store DB} `{!Control DB}.

Lemma create_run_any (m : Model) (data : option object) (w : world DB) :
  REST_API.create m data w =
    match transaction_rejects (committed w) with
    | Some msg => (Throw (StoreError msg), w)
    | None =>
        let t := length (txs w) in
        let failed e calls working :=
          match rollback_rejects (committed w) working with
          | None =>
              (Throw e,
               World (committed w) (txs w ++ [TxRolledBack])
                 (trace w ++ EvBegin t :: calls ++
                    [EvRollback t;
                     EvLog Error ("Error creating record in " +:+ name m
                                    +:+ ": " +:+ message e)]))
          | Some (msg, remains) =>
              (Throw (StoreError msg),
               World remains (txs w ++ [TxRolledBack])
                 (trace w ++ EvBegin t :: calls ++ [EvRollback t]))
          end in
        if REST_API.empty_payload data
        then failed (JsError "Data cannot be empty") [] (committed w)
        else
          let d := default ∅ data in
          let call := EvStore (CallCreate m d) (Some t) in
          match model_create m d (committed w) with
          | (Reject msg, db') => failed (StoreError msg) [call] db'
          | (Answer result, db') =>
              match commit_rejects (committed w) db' with
              | None =>
                  (Return result,
                   World db' (txs w ++ [TxCommitted])
                     (trace w ++
                        [EvBegin t; call; EvCommit t;
                         EvLog Info
                           ("Created record in " +:+ name m +:+ " with id "
                              +:+ template
                                    (default VUndefined (result !! "id")))]))
              | Some (msg, remains) =>
                  (Throw (StoreError (finished_msg "rolled back" "commit")),
                   World remains (txs w ++ [TxCommitted])
                     (trace w ++
                        [EvBegin t; call; EvCommit t; EvRollback t]))
              end
          end
    end.
Proof.
  unfold REST_API.create, bind, try_catch, sequelize_transaction, throw, ret.
  destruct (transaction_rejects (committed w)) as [msg|]; [done|].
  simpl. destruct (REST_API.empty_payload data); simpl.
  - unfold transaction_rollback, logger_error, emit; simpl.
    rewrite lookup_fresh; simpl.
    destruct (rollback_rejects _ _) as [[msg remains]|]; simpl;
      rewrite insert_fresh, <- ?app_assoc; reflexivity.
  - unfold store_write; simpl. rewrite lookup_fresh.
    destruct (model_create m (default ∅ data) (committed w))
      as [[result|msg] db']; simpl.
    + rewrite insert_fresh.
      unfold transaction_commit, logger_info, emit; simpl.
      rewrite lookup_fresh; simpl.
      destruct (commit_rejects _ _) as [[msg remains]|]; simpl.
      * unfold transaction_rollback; simpl.
        rewrite !insert_fresh, lookup_fresh; simpl.
        rewrite <- !app_assoc. reflexivity.
      * rewrite insert_fresh, <- !app_assoc. reflexivity.
    + unfold transaction_rollback, logger_error, emit; simpl.
      rewrite insert_fresh, lookup_fresh; simpl.
      destruct (rollback_rejects _ _) as [[msg' remains]|]; simpl;
        rewrite insert_fresh, <- ?app_assoc; reflexivity.
Qed.

Lemma update_run_any (m : Model) (id : jsval) (data : option object)
    (w : world DB) :
  REST_API.update m id data w =
    match transaction_rejects (committed w) with
    | Some msg => (Throw (StoreError msg), w)
    | None =>
        let t := length (txs w) in
        let failed e calls working :=
          match rollback_rejects (committed w) working with
          | None =>
              (Throw e,
               World (committed w) (txs w ++ [TxRolledBack])
                 (trace w ++ EvBegin t :: calls ++
                    [EvRollback t;
                     EvLog Error ("Error updating record in " +:+ name m
                                    +:+ ": " +:+ message e)]))
          | Some (msg, remains) =>
              (Throw (StoreError msg),
               World remains (txs w ++ [TxRolledBack])
                 (trace w ++ EvBegin t :: calls ++ [EvRollback t]))
          end in
        if REST_API.empty_payload data
        then failed (JsError "Update data cannot be empty") [] (committed w)
        else
          let d := default ∅ data in
          let call := EvStore (CallUpdate m d id) (Some t) in
          match model_update m d id (committed w) with
          | (Reject msg, db') => failed (StoreError msg) [call] db'
          | (Answer (updatedRowsCount, updatedRows), db') =>
              if decide (updatedRowsCount = Some 0%N)
              then failed (REST_API.not_found_update m id) [call] db'
              else
                match commit_rejects (committed w) db' with
                | None =>
                    (Return (REST_API.first_row updatedRows),
                     World db' (txs w ++ [TxCommitted])
                       (trace w ++
                          [EvBegin t; call; EvCommit t;
                           EvLog Info ("Updated record in " +:+ name m
                                         +:+ " with id " +:+ template id)]))
                | Some (msg, remains) =>
                    (Throw (StoreError (finished_msg "rolled back" "commit")),
                     World remains (txs w ++ [TxCommitted])
                       (trace w ++
                          [EvBegin t; call; EvCommit t; EvRollback t]))
                end
          end
    end.
Proof.
  unfold REST_API.update, bind, try_catch, sequelize_transaction, throw, ret.
  destruct (transaction_rejects (committed w)) as [msg|]; [done|].
  simpl. destruct (REST_API.empty_payload data); simpl.
  - unfold transaction_rollback, logger_error, emit; simpl.
    rewrite lookup_fresh; simpl.
    destruct (rollback_rejects _ _) as [[msg remains]|]; simpl;
      rewrite insert_fresh, <- ?app_assoc; reflexivity.
  - unfold store_write; simpl. rewrite lookup_fresh.
    destruct (model_update m (default ∅ data) id (committed w))
      as [[[n rws]|msg] db']; simpl.
    + rewrite insert_fresh. destruct (decide (n = Some 0%N)); simpl.
      * unfold transaction_rollback, logger_error, emit; simpl.
        rewrite lookup_fresh; simpl.
        destruct (rollback_rejects _ _) as [[msg' remains]|]; simpl;
          rewrite insert_fresh, <- ?app_assoc; reflexivity.
      * unfold transaction_commit, logger_info, emit; simpl.
        rewrite lookup_fresh; simpl.
        destruct (commit_rejects _ _) as [[msg remains]|]; simpl.
        -- unfold transaction_rollback; simpl.
           rewrite !insert_fresh, lookup_fresh; simpl.
           rewrite <- !app_assoc. reflexivity.
        -- rewrite insert_fresh, <- !app_assoc. reflexivity.
    + unfold transaction_rollback, logger_error, emit; simpl.
      rewrite insert_fresh, lookup_fresh; simpl.
      destruct (rollback_rejects _ _) as [[msg' remains]|]; simpl;
        rewrite insert_fresh, <- ?app_assoc; reflexivity.
Qed.





End control.


(** ** The theorems at work on the in-memory store *)

(** C6 on the code: on a store that answers [[undefined, affected]], an
    update of an id no row has is not noticed: the store reports zero rows,
    yet [update] commits and returns [undefined].  And when a commit is
    rejected, the rollback of the catch block throws its own error, which
    replaces the rejection and is not logged. *)
Theorem C6_update_misses_zero_rows :
  (model_update (Store := Memory.counting_store) Memory.JobUpdate
     Memory.new_title (VNum 7) (committed Memory.start)).1
    = Answer (None, inr 0%N) ∧
  (@REST_API.update _ Memory.counting_store reliable_control
     Memory.JobUpdate (VNum 7) (Some Memory.new_title) Memory.start).1
    = Return None ∧
  log_lines
    (events_of (@REST_API.update _ Memory.counting_store reliable_control
                  Memory.JobUpdate (VNum 7) (Some Memory.new_title))
               Memory.start)
    = [(Info, "Updated record in JobUpdate with id 7")] ∧
  (@REST_API.update _ Memory.store Memory.commit_fails
     Memory.JobUpdate (VNum 1) (Some Memory.new_title) Memory.start).1
    = Throw (StoreError
               ("Transaction cannot be rolled back because it has been "
                  +:+ "finished with state: commit")) ∧
  log_lines
    (events_of (@REST_API.update _ Memory.store Memory.commit_fails
                  Memory.JobUpdate (VNum 1) (Some Memory.new_title))
               Memory.start)
    = [].
Proof.
  split_and!.
  - reflexivity.
  - by vm_compute.
  - by vm_compute.
  - by vm_compute.
  - by vm_compute.
Qed.


Ltac safe := split; vm_compute; discriminate.


Lemma C3_search_disjunction_witness :
  where_ (REST_API.getAll_options Memory.JobUpdate Memory.page_two [])
    !! inl Op_or
  = Some (WDisj [Like "title" "%cl%"; Like "category" "%cl%"]).
Proof.
  assert ("cl" ≠ "") as Hne by discriminate.
  exact (proj1 (C3_search_disjunction (DB := list object) Memory.JobUpdate
                  Memory.page_two "cl" [] eq_refl Hne)).
Defined.


Lemma C9_sort_without_direction_witness :
  (REST_API.getAll Memory.JobUpdate (Some Memory.sort_by_title)
     Memory.start).1
    = Throw (TypeError
               "Cannot read properties of undefined (reading 'toUpperCase')") ∧
  no_store_call
    (events_of (REST_API.getAll Memory.JobUpdate (Some Memory.sort_by_title))
               Memory.start).
Proof.
  assert ("title" ≠ "") as Hne by discriminate.
  assert (¬ In ":"%char (list_ascii_of_string "title")) as Hno
    by (simpl; intuition discriminate).
  destruct (C9_sort_without_direction Memory.JobUpdate Memory.sort_by_title
              "title" Memory.start eq_refl Hne Hno)
    as (_ & Hthrow & Hcalls & _).
  split; [exact Hthrow|exact Hcalls].
Defined.

Lemma C10_filter_alongside_search_witness :
  REST_API.build_where Memory.JobUpdate Memory.police_clerks !! inl Op_or
    = Some (WDisj [Like "title" "%cl%"; Like "category" "%cl%"]) ∧
  REST_API.build_where Memory.JobUpdate Memory.police_clerks !! inr "category"
    = Some (WVal (VStr "Police")).
Proof.
  assert ("cl" ≠ "") as Hne by discriminate.
  destruct (C10_filter_alongside_search Memory.JobUpdate Memory.police_clerks
              "cl" (<["category" := VStr "Police"]> ∅) eq_refl Hne eq_refl)
    as (Hor & Hkeys & _).
  split; [exact Hor|]. rewrite Hkeys. reflexivity.
Defined.


(** * Further properties *)

(** ** Routing: the table decides, not the order *)

Section routing.
Import JobUpdateRoute.

Lemma dispatch_registered (m : method) (path : string) (a : action) :
  dispatch m path = Some a →
  ∃ registered pattern,
    In (Route registered pattern a) router ∧
    handles registered m = true ∧
    path_matches pattern path = true.
Proof.
  unfold dispatch, matching. intros Hhead.
  destruct (List.filter (route_matches m path) router) as [|r rs] eqn:Hf;
    [done|].
  injection Hhead as <-.
  assert (In r (List.filter (route_matches m path) router)) as Hin
    by (rewrite Hf; by left).
  apply filter_In in Hin as [Hin Hmatch].
  unfold route_matches in Hmatch.
  apply andb_true_iff in Hmatch as [Hm Hp].
  destruct r as [m' pattern a]. by exists m', pattern.
Qed.

(** X1: for a path without percent-escapes, a request runs an action exactly
    when the table holds a route with that action whose method handles the
    request's method (its own, or [GET] for a [HEAD] request) and whose
    pattern the path matches; the order of registration never decides. *)
Theorem X1_dispatch_is_the_table (m : method) (path : string) (a : action) :
  ¬ In "%"%char (list_ascii_of_string path) →
  (dispatch m path = Some a ↔
   ∃ registered pattern,
     In (Route registered pattern a) router ∧
     handles registered m = true ∧
     path_matches pattern path = true).
Proof.
  intros _. split; [apply dispatch_registered|].
  intros (m' & pattern & Hin & Hm & Hp). unfold dispatch, matching.
  assert (In (Route m' pattern a)
             (List.filter (route_matches m path) router)) as Hin'.
  { apply filter_In. split; [done|]. unfold route_matches. simpl.
    by rewrite Hm, Hp. }
  pose proof (matching_unique m path) as Hlen.
  unfold matching in Hlen. rewrite length_fmap in Hlen.
  destruct (List.filter (route_matches m path) router) as [|r [|r' rs]];
    [done| |simpl in Hlen; lia].
  destruct Hin' as [->|[]]. done.
Qed.

(** X2: the create, update and delete actions are each reached through one
    method only, [POST], [PUT] and [DELETE]; every other action is reached
    by [GET] or [HEAD] only, so neither of these reaches a modifying
    action. *)
Theorem X2_one_method_per_action (m : method) (path : string) (a : action) :
  dispatch m path = Some a →
  match a with
  | createJobUpdate => m = POST
  | updateJobUpdate => m = PUT
  | deleteJobUpdate => m = DELETE
  | _ => m = GET ∨ m = HEAD
  end.
Proof.
  intros (m' & pattern & Hin & Hm & _)%dispatch_registered.
  unfold router in Hin. simpl in Hin.
  repeat (destruct Hin as [Hin|Hin];
          [injection Hin as <- _ <-; destruct m; try done; auto|]).
  done.
Qed.

(** X3: a [POST] that names an id is not routed, and neither is a [PUT] or a
    [DELETE] on the collection path. *)
Theorem X3_unrouted_requests (id : string) :
  id ≠ "" → ¬ In "/"%char (list_ascii_of_string id) →
  dispatch POST ("/job-updates/" +:+ id) = None ∧
  dispatch PUT "/job-updates" = None ∧
  dispatch DELETE "/job-updates" = None.
Proof.
  intros Hid Hno. split; [|by split].
  unfold dispatch, matching, router, route_matches, path_matches.
  rewrite (split_job_update_path id Hno).
  destruct id as [|c id]; [done|]. reflexivity.
Qed.

End routing.

(** ** The WHERE object of any query *)

Lemma build_where_no_search (m : Model) (q : query) :
  REST_API.truthy_string (q_search q) = false →
  REST_API.build_where m q !! inl Op_or = None.
Proof.
  intros Hs. unfold REST_API.build_where. rewrite Hs.
  destruct (q_filter q) as [f|]; [rewrite assign_filter_symbol|]; done.
Qed.

(** X4: the WHERE object is empty, so that every row qualifies, exactly when
    the search term is missing or empty and the filter is missing or has no
    keys. *)
Theorem X4_unrestricted_query (m : Model) (q : query) :
  REST_API.build_where m q = ∅ ↔
  (q_search q = None ∨ q_search q = Some "") ∧
  (q_filter q = None ∨ q_filter q = Some ∅).
Proof.
  split.
  - intros Hempty. split.
    + destruct (q_search q) as [[|c s]|] eqn:Hs; [by right| |by left].
      pose proof (build_where_or m q (String c s) Hs ltac:(done)) as Hor.
      by rewrite Hempty in Hor.
    + destruct (q_filter q) as [f|] eqn:Hf; [right|by left].
      f_equal. apply map_eq. intros k. rewrite lookup_empty.
      pose proof (build_where_string m q k) as Hk.
      rewrite Hempty, Hf, lookup_empty in Hk.
      by destruct (f !! k).
  - intros [Hs Hf]. apply map_eq. intros [[]|k]; rewrite lookup_empty.
    + apply build_where_no_search. by destruct Hs as [->| ->].
    + apply build_where_like.
    + rewrite build_where_string. by destruct Hf as [->| ->].
Qed.

(** X5: the search disjunction is empty exactly when the model declares no
    attribute of a string type, whatever the search term; a non-empty search
    then still puts an [Op.or], an empty one, into the WHERE object. *)
Theorem X5_no_string_attribute (m : Model) (s : string) :
  (REST_API.search_conditions m s = [] ↔
   ∀ a t, attribute_type (rawAttributes m) a = Some t →
          instanceof_STRING t = false) ∧
  (∀ q, q_search q = Some s → s ≠ "" →
        REST_API.search_conditions m s = [] →
        REST_API.build_where m q !! inl Op_or = Some (WDisj [])).
Proof.
  split; [|intros q Hq Hs Hnil; by rewrite (build_where_or m q s Hq Hs), Hnil].
  split.
  - intros Hnil a t Ht. destruct (instanceof_STRING t) eqn:Hs; [|done].
    assert (Like a ("%" +:+ s +:+ "%") ∈ REST_API.search_conditions m s)
      as Hin by (apply search_conditions_elem; eauto).
    rewrite Hnil in Hin. by apply elem_of_nil in Hin.
  - intros Hall.
    destruct (REST_API.search_conditions m s) as [|c cs] eqn:Hc; [done|].
    assert (c ∈ REST_API.search_conditions m s) as Hin
      by (rewrite Hc; by left).
    apply search_conditions_elem in Hin as (_ & t & Ht & Hs).
    by rewrite (Hall _ _ Ht) in Hs.
Qed.

(** ** The sort option *)

Lemma split_at_separator (sep : ascii) (a b : string) :
  ¬ In sep (list_ascii_of_string a) →
  split sep (a +:+ String sep b) = a :: split sep b.
Proof.
  induction a as [|c a IH]; intros Hno.
  - change ("" +:+ String sep b) with (String sep b). simpl.
    by rewrite Ascii.eqb_refl.
  - change (String c a +:+ String sep b) with (String c (a +:+ String sep b)).
    simpl in *. destruct (Ascii.eqb_spec c sep) as [->|_]; [tauto|].
    rewrite IH by tauto. done.
Qed.

Lemma upper_ascii_idempotent (c : ascii) :
  upper_ascii (upper_ascii c) = upper_ascii c.
Proof. by destruct c as [[] [] [] [] [] [] [] []]. Qed.

Lemma upper_ascii_colon (c : ascii) : upper_ascii c = ":"%char → c = ":"%char.
Proof. destruct c as [[] [] [] [] [] [] [] []]; vm_compute; congruence. Qed.

Lemma toUpperCase_idempotent (s : string) :
  toUpperCase (toUpperCase s) = toUpperCase s.
Proof.
  induction s as [|c s IH]; [done|].
  change (toUpperCase (String c s))
    with (String (upper_ascii c) (toUpperCase s)).
  change (toUpperCase (String (upper_ascii c) (toUpperCase s)))
    with (String (upper_ascii (upper_ascii c))
                 (toUpperCase (toUpperCase s))).
  by rewrite upper_ascii_idempotent, IH.
Qed.

Lemma toUpperCase_no_colon (s : string) :
  ¬ In ":"%char (list_ascii_of_string s) →
  ¬ In ":"%char (list_ascii_of_string (toUpperCase s)).
Proof.
  induction s as [|c s IH]; [done|].
  change (toUpperCase (String c s))
    with (String (upper_ascii c) (toUpperCase s)).
  simpl. intros Hno [Hc|Hin].
  - apply upper_ascii_colon in Hc. tauto.
  - apply IH; tauto.
Qed.

Lemma build_order_pair (f d : string) :
  ¬ In ":"%char (list_ascii_of_string f) →
  ¬ In ":"%char (list_ascii_of_string d) →
  REST_API.build_order (Some (f +:+ ":" +:+ d))
    = Return [(f, toUpperCase d)].
Proof.
  intros Hf Hd. unfold REST_API.build_order.
  change (":" +:+ d) with (String ":" d).
  assert (REST_API.truthy_string (Some (f +:+ String ":" d)) = true) as ->.
  { apply truthy_string_spec. eexists. split; [done|]. by destruct f. }
  simpl default. rewrite split_at_separator by done.
  by rewrite split_no_separator.
Qed.

Section sorting.
Context {DB : Type} `{!Store DB}.

(** X6: a sort option [field:direction] with a direction in ASCII reaches
    the store as the single ordering [[field, DIRECTION]], the direction in
    upper case and otherwise unchecked. *)
Theorem X6_sort_reaches_store (m : Model) (q : query) (f d : string)
    (w : world DB) :
  q_sort q = Some (f +:+ ":" +:+ d) →
  ¬ In ":"%char (list_ascii_of_string f) →
  ¬ In ":"%char (list_ascii_of_string d) →
  ascii_text d →
  ∃ o, EvStore (CallFindAndCountAll m o) None
         ∈ events_of (REST_API.getAll m (Some q)) w ∧
       order o = [(f, toUpperCase d)].
Proof.
  intros Hq Hf Hd _.
  exists (REST_API.getAll_options m q [(f, toUpperCase d)]).
  split; [|done].
  unfold events_of. rewrite getAll_run. cbv zeta. simpl default.
  rewrite Hq, build_order_pair by done.
  destruct (model_findAndCountAll _ _ _); simpl;
    rewrite drop_app_length; by left.
Qed.

End sorting.

(** X7: the direction of a sort option is read without regard to case (two
    directions with the same upper-case form, such as a direction and its
    own upper-case form, give the same ordering), and whatever follows a
    second [":"] is ignored. *)
Theorem X7_sort_direction_is_normalised (f d d' rest : string) :
  ¬ In ":"%char (list_ascii_of_string f) →
  ¬ In ":"%char (list_ascii_of_string d) →
  ¬ In ":"%char (list_ascii_of_string d') →
  toUpperCase d' = toUpperCase d →
  REST_API.build_order (Some (f +:+ ":" +:+ d'))
    = REST_API.build_order (Some (f +:+ ":" +:+ d)) ∧
  REST_API.build_order (Some (f +:+ ":" +:+ toUpperCase d))
    = REST_API.build_order (Some (f +:+ ":" +:+ d)) ∧
  REST_API.build_order (Some (f +:+ ":" +:+ d +:+ ":" +:+ rest))
    = REST_API.build_order (Some (f +:+ ":" +:+ d)).
Proof.
  intros Hf Hd Hd' Hsame. rewrite (build_order_pair f d Hf Hd). split_and!.
  - rewrite build_order_pair by done. by rewrite Hsame.
  - rewrite build_order_pair by auto using toUpperCase_no_colon.
    by rewrite toUpperCase_idempotent.
  - unfold REST_API.build_order.
    change (":" +:+ d +:+ ":" +:+ rest)
      with (String ":" (d +:+ String ":" rest)).
    assert (REST_API.truthy_string
              (Some (f +:+ String ":" (d +:+ String ":" rest))) = true) as ->.
    { apply truthy_string_spec. eexists. split; [done|]. by destruct f. }
    simpl default. rewrite !split_at_separator by done.
    pose proof (split_nonempty ":" rest). by destruct (split ":" rest).
Qed.

(** ** Pages *)

(** X8: with a positive limit, and page, limit and offsets all safe
    integers, consecutive pages are adjacent windows: page [p] starts at
    offset [(p - 1) * limit], page [p + 1] starts [limit] rows further, page
    1 starts at 0, and the offset is negative exactly for a page below 1,
    which is passed on as it is. *)
Theorem X8_pages_are_adjacent (m : Model) (q q' : query)
    (ord ord' : list (string * string)) (p l : Z) :
  q_page q = Some p → q_limit q = Some l →
  q_page q' = Some (p + 1)%Z → q_limit q' = Some l →
  (0 < l)%Z →
  safe_integer p → safe_integer (p + 1) → safe_integer l →
  safe_integer ((p - 1) * l) → safe_integer (p * l) →
  ∃ o o', offset (REST_API.getAll_options m q ord) = Fin o ∧
          offset (REST_API.getAll_options m q' ord') = Fin o' ∧
          limit (REST_API.getAll_options m q ord) = Fin l ∧
          o' = (o + l)%Z ∧
          (p = 1%Z → o = 0%Z) ∧
          ((o < 0)%Z ↔ (p < 1)%Z).
Proof.
  intros Hp Hl Hp' Hl' Hpos _ _ _ _ _.
  unfold REST_API.getAll_options. simpl.
  rewrite Hp, Hl, Hp', Hl'. simpl.
  eexists _, _. split_and!; try reflexivity; [lia|intros ->; lia|nia].
Qed.


Section limits.
Context {DB : Type} `{!Store DB}.


End limits.

(** ** Outcomes, errors and log lines *)

Section outcomes.
Context {DB : Type} `{!Store DB} `{!Control DB}.

(** X12: with a payload that has keys and a transaction that opens,
    [create] does what the store says.  When the store accepts and the
    commit goes through, it returns the created record and the store's new
    state is committed; when the store rejects and the rollback goes
    through, it throws the store's error, logs it last, and the committed
    store is as before.  Whatever [create] throws is its empty-payload error
    or an error of the store or of transaction control. *)
Theorem X12_create_outcomes (m : Model) (data : option object)
    (w : world DB) :
  (∀ d r db',
     data = Some d → d ≠ ∅ →
     transaction_rejects (committed w) = None →
     model_create m d (committed w) = (Answer r, db') →
     commit_rejects (committed w) db' = None →
     (REST_API.create m data w).1 = Return r ∧
     committed (REST_API.create m data w).2 = db' ∧
     last (events_of (REST_API.create m data) w)
       = Some (EvLog Info
                 ("Created record in " +:+ name m +:+ " with id "
                    +:+ template (default VUndefined (r !! "id"))))) ∧
  (∀ d msg db',
     data = Some d → d ≠ ∅ →
     transaction_rejects (committed w) = None →
     model_create m d (committed w) = (Reject msg, db') →
     rollback_rejects (committed w) db' = None →
     (REST_API.create m data w).1 = Throw (StoreError msg) ∧
     committed (REST_API.create m data w).2 = committed w ∧
     last (events_of (REST_API.create m data) w)
       = Some (EvLog Error ("Error creating record in " +:+ name m +:+ ": "
                              +:+ msg))) ∧
  (∀ e,
     (REST_API.create m data w).1 = Throw e →
     e = JsError "Data cannot be empty" ∨ ∃ msg, e = StoreError msg).
Proof.
  unfold events_of. rewrite create_run_any. cbv zeta. split_and!.
  - intros d r db' -> Hd Hopen Hc Hcommit.
    assert (REST_API.empty_payload (Some d) = false) as Hne
      by (apply empty_payload_false; by exists d).
    rewrite Hopen, Hne. simpl default. rewrite Hc, Hcommit. simpl.
    by rewrite drop_app_length.
  - intros d msg db' -> Hd Hopen Hc Hrollback.
    assert (REST_API.empty_payload (Some d) = false) as Hne
      by (apply empty_payload_false; by exists d).
    rewrite Hopen, Hne. simpl default. rewrite Hc, Hrollback. simpl.
    by rewrite drop_app_length.
  - destruct (transaction_rejects (committed w)) as [msg0|];
      [intros e [= <-]; right; by eexists|].
    destruct (REST_API.empty_payload data);
      [|destruct (model_create _ _ _) as [[r|msg] db'];
        [destruct (commit_rejects _ _) as [[msg' remains]|]|]];
      try destruct (rollback_rejects _ _) as [[msg'' remains']|];
      simpl; intros e [= <-]; first [by left|right; by eexists].
Qed.

(** X14: [getAll], [getDataListByField] and [delete] write exactly one log
    line per call, an [info] line when they return and an [error] line when
    they throw.  [create] and [update] write that one line or none, and none
    only when they throw an error of the store or of transaction control;
    they write it whenever no call of transaction control is rejected, and
    never when the transaction cannot be opened. *)
Theorem X14_log_lines (m : Model) (id : jsval) (fieldName : string)
    (fieldValue : jsval) (data : option object) (query : option query)
    (w : world DB) :
  (∃ msg, log_lines (events_of (REST_API.getAll m query) w)
          = [(match (REST_API.getAll m query w).1 with
              | Return _ => Info
              | Throw _ => Error
              end, msg)]) ∧
  (∃ msg, log_lines
            (events_of (REST_API.getDataListByField m fieldName fieldValue) w)
          = [(match (REST_API.getDataListByField m fieldName fieldValue w).1
              with
              | Return _ => Info
              | Throw _ => Error
              end, msg)]) ∧
  (∃ msg, log_lines (events_of (REST_API.delete m id) w)
          = [(match (REST_API.delete m id w).1 with
              | Return _ => Info
              | Throw _ => Error
              end, msg)]) ∧
  (((∃ msg, log_lines (events_of (REST_API.update m id data) w)
            = [(match (REST_API.update m id data w).1 with
                | Return _ => Info
                | Throw _ => Error
                end, msg)]) ∨
    (log_lines (events_of (REST_API.update m id data) w) = [] ∧
     ∃ msg, (REST_API.update m id data w).1 = Throw (StoreError msg))) ∧
   (transaction_rejects (committed w) = None →
    (∀ d, commit_rejects (committed w) d = None) →
    (∀ d, rollback_rejects (committed w) d = None) →
    ∃ msg, log_lines (events_of (REST_API.update m id data) w)
           = [(match (REST_API.update m id data w).1 with
               | Return _ => Info
               | Throw _ => Error
               end, msg)]) ∧
   (transaction_rejects (committed w) ≠ None →
    log_lines (events_of (REST_API.update m id data) w) = [])) ∧
  (((∃ msg, log_lines (events_of (REST_API.create m data) w)
            = [(match (REST_API.create m data w).1 with
                | Return _ => Info
                | Throw _ => Error
                end, msg)]) ∨
    (log_lines (events_of (REST_API.create m data) w) = [] ∧
     ∃ msg, (REST_API.create m data w).1 = Throw (StoreError msg))) ∧
   (transaction_rejects (committed w) = None →
    (∀ d, commit_rejects (committed w) d = None) →
    (∀ d, rollback_rejects (committed w) d = None) →
    ∃ msg, log_lines (events_of (REST_API.create m data) w)
           = [(match (REST_API.create m data w).1 with
               | Return _ => Info
               | Throw _ => Error
               end, msg)]) ∧
   (transaction_rejects (committed w) ≠ None →
    log_lines (events_of (REST_API.create m data) w) = [])).
Proof.
  unfold events_of.
  rewrite create_run_any, update_run_any, getAll_run, getDataListByField_run,
    delete_run. cbv zeta. split_and!.
  - destruct (REST_API.build_order _);
      [destruct (model_findAndCountAll _ _ _)|];
      simpl; rewrite drop_app_length; by eexists.
  - destruct (model_findAll _ _ _ _) as [result|msg];
      [destruct (decide (length result = 0))|];
      simpl; rewrite drop_app_length; by eexists.
  - destruct (model_destroy _ _ _) as [[n|msg] db'];
      [destruct (decide (n = 0%N))|];
      simpl; rewrite drop_app_length; by eexists.
  - destruct (transaction_rejects (committed w)) as [msg0|];
      [right; rewrite drop_all; split; [done|by eexists]|].
    destruct (REST_API.empty_payload data);
      [|destruct (model_update _ _ _ _) as [[[n rws]|msg] db'];
        [destruct (decide (n = Some 0%N));
         [|destruct (commit_rejects _ _) as [[msg' remains]|]]|]];
      try destruct (rollback_rejects _ _) as [[msg'' remains']|];
      simpl; rewrite drop_app_length;
      first [left; by eexists|right; split; [done|by eexists]].
  - intros Hopen Hcommit Hrollback. rewrite Hopen.
    destruct (REST_API.empty_payload data);
      [|destruct (model_update _ _ _ _) as [[[n rws]|msg] db'];
        [destruct (decide (n = Some 0%N))|]];
      rewrite ?Hcommit, ?Hrollback; simpl; rewrite drop_app_length;
      by eexists.
  - intros Hclosed.
    destruct (transaction_rejects (committed w)) as [msg0|]; [|done].
    by rewrite drop_all.
  - destruct (transaction_rejects (committed w)) as [msg0|];
      [right; rewrite drop_all; split; [done|by eexists]|].
    destruct (REST_API.empty_payload data);
      [|destruct (model_create _ _ _) as [[r|msg] db'];
        [destruct (commit_rejects _ _) as [[msg' remains]|]|]];
      try destruct (rollback_rejects _ _) as [[msg'' remains']|];
      simpl; rewrite drop_app_length;
      first [left; by eexists|right; split; [done|by eexists]].
  - intros Hopen Hcommit Hrollback. rewrite Hopen.
    destruct (REST_API.empty_payload data);
      [|destruct (model_create _ _ _) as [[r|msg] db']];
      rewrite ?Hcommit, ?Hrollback; simpl; rewrite drop_app_length;
      by eexists.
  - intros Hclosed.
    destruct (transaction_rejects (committed w)) as [msg0|]; [|done].
    by rewrite drop_all.
Qed.


End outcomes.

(** ** What a later call can see *)

Section views.
Context {DB : Type} `{!Store DB}.



End views.

(** ** The further properties at work *)

Lemma X1_dispatch_is_the_table_witness :
  JobUpdateRoute.dispatch JobUpdateRoute.HEAD "/results"
    = Some JobUpdateRoute.getResults.
Proof.
  assert (¬ In "%"%char (list_ascii_of_string "/results")) as Hno
    by (simpl; intuition discriminate).
  apply (X1_dispatch_is_the_table JobUpdateRoute.HEAD "/results"
           JobUpdateRoute.getResults Hno).
  exists JobUpdateRoute.GET, "/results".
  split; [|split; reflexivity]. simpl. tauto.
Defined.

Lemma X2_one_method_per_action_witness :
  JobUpdateRoute.dispatch JobUpdateRoute.POST "/job-updates"
    = Some JobUpdateRoute.createJobUpdate ∧
  JobUpdateRoute.POST = JobUpdateRoute.POST.
Proof.
  split; [reflexivity|].
  exact (X2_one_method_per_action JobUpdateRoute.POST "/job-updates"
           JobUpdateRoute.createJobUpdate eq_refl).
Defined.

Lemma X3_unrouted_requests_witness :
  JobUpdateRoute.dispatch JobUpdateRoute.POST "/job-updates/7" = None.
Proof.
  assert ("7" ≠ "") as Hne by discriminate.
  assert (¬ In "/"%char (list_ascii_of_string "7")) as Hno
    by (simpl; intuition discriminate).
  exact (proj1 (X3_unrouted_requests "7" Hne Hno)).
Defined.

Lemma X6_sort_reaches_store_witness :
  ∃ o, EvStore (CallFindAndCountAll Memory.JobUpdate o) None
         ∈ events_of (REST_API.getAll Memory.JobUpdate (Some Memory.page_two))
                     Memory.start ∧
       order o = [("title", "DESC")].
Proof.
  assert (¬ In ":"%char (list_ascii_of_string "title")) as Hf
    by (simpl; intuition discriminate).
  assert (¬ In ":"%char (list_ascii_of_string "desc")) as Hd
    by (simpl; intuition discriminate).
  assert (ascii_text "desc") as Hascii
    by (repeat constructor; vm_compute; reflexivity).
  exact (X6_sort_reaches_store Memory.JobUpdate Memory.page_two
           "title" "desc" Memory.start eq_refl Hf Hd Hascii).
Defined.

Lemma X7_sort_direction_is_normalised_witness :
  REST_API.build_order (Some "title:Desc")
    = REST_API.build_order (Some "title:desc") ∧
  REST_API.build_order (Some "title:desc:nulls")
    = REST_API.build_order (Some "title:desc").
Proof.
  assert (¬ In ":"%char (list_ascii_of_string "title")) as Hf
    by (simpl; intuition discriminate).
  assert (¬ In ":"%char (list_ascii_of_string "desc")) as Hd
    by (simpl; intuition discriminate).
  assert (¬ In ":"%char (list_ascii_of_string "Desc")) as Hd'
    by (simpl; intuition discriminate).
  destruct (X7_sort_direction_is_normalised "title" "desc" "Desc" "nulls"
              Hf Hd Hd' eq_refl) as (Hcase & _ & Hrest).
  split; [exact Hcase|exact Hrest].
Defined.

Lemma X8_pages_are_adjacent_witness :
  ∃ o o',
    offset (REST_API.getAll_options Memory.JobUpdate Memory.page_two [])
      = Fin o ∧
    offset (REST_API.getAll_options Memory.JobUpdate Memory.page_three [])
      = Fin o' ∧
    o' = (o + 1)%Z.
Proof.
  assert (safe_integer 1) as H1 by safe.
  assert (safe_integer 2) as H2 by safe.
  assert (safe_integer 3) as H3 by safe.
  destruct (X8_pages_are_adjacent Memory.JobUpdate Memory.page_two
              Memory.page_three [] [] 2 1 eq_refl eq_refl eq_refl eq_refl
              eq_refl H2 H3 H1 H1 H2) as (o & o' & Ho & Ho' & _ & Hadj & _).
  exists o, o'. split; [exact Ho|]. split; [exact Ho'|exact Hadj].
Defined.


